(** * Hydroponic telemetry generators of GiuBlockchainDEV/ICP

    Shallow embedding of the two sensor-data generators of the repository:
    - [HydroponicSystem] (src/Demo/demo2/motoko.py), the correlated engine
      with its daily cycle, random drift and correlation stages;
    - [HydroponicDataSensor] (src/Growa/contract/auto.py), the independent
      single-parameter oscillator.

    Python floats are modelled as exact real numbers ([R]); Python ints as [Z].
    The ambient [random] module is modelled as an explicit source: a stream of
    standard variates read one at a time ([Rng]).  [random.uniform(a, b)] is
    [a + (b - a) * random()] as in CPython, with the unit variate read from the
    stream; [random.gauss(mu, sigma)] is [mu + z * sigma] with the standard
    normal variate [z] read from the stream.  The hour of day, which the source
    reads from [datetime.now().hour], is an explicit argument. *)

From Stdlib Require Import Bool Reals Lra Lia ZArith Ascii String List FunctionalExtensionality.
Import ListNotations.
Open Scope R_scope.

(** ** The random source *)

Record Rng := mkRng { stream : nat -> R; pos : nat }.

(** [random.random()]: the next variate of the stream. *)
Definition random_ (g : Rng) : R * Rng :=
  (stream g (pos g), mkRng (stream g) (S (pos g))).

(** [random.uniform(a, b) = a + (b - a) * random()]. *)
Definition uniform (a b : R) (g : Rng) : R * Rng :=
  let (x, g1) := random_ g in (a + (b - a) * x, g1).

(** [random.gauss(mu, sigma) = mu + z * sigma]. *)
Definition gauss (mu sigma : R) (g : Rng) : R * Rng :=
  let (z, g1) := random_ g in (mu + z * sigma, g1).

(** ** Python's [round(x, 2)]: round half to even at two decimals. *)

Definition floor_ (y : R) : Z := (up y - 1)%Z.

Definition round_half_even (y : R) : Z :=
  let f := floor_ y in
  let d := y - IZR f in
  if Rlt_dec d (1 / 2) then f
  else if Rlt_dec (1 / 2) d then (f + 1)%Z
  else if Z.even f then f else (f + 1)%Z.

Definition round2 (x : R) : R := IZR (round_half_even (x * 100)) / 100.

(** Python's [max(lo, min(hi, v))]. *)
Definition clamp (v lo hi : R) : R := Rmax lo (Rmin hi v).

(** ** The correlated engine: class [HydroponicSystem] (motoko.py) *)

Module HydroponicSystem.

(** The keys of [current_state], [variation_params] and [limits]. *)
Inductive param := ec | ph | water_temp | air_temp | humidity | light.

Definition param_eq_dec (p q : param) : {p = q} + {p <> q}.
Proof. decide equality. Defined.

(** A dict with the six keys, all always present. *)
Definition state := param -> R.

Definition set (st : state) (p : param) (v : R) : state :=
  fun q => if param_eq_dec q p then v else st q.

(** Iteration order of [self.current_state] (insertion order of the dict
    literal in [__init__]; assignments to existing keys keep it). *)
Definition keys : list param := [ec; ph; water_temp; air_temp; humidity; light].

(** [__init__]: the initial [current_state]. *)
Definition init_state : state := fun p =>
  match p with
  | ec => 1.5 | ph => 6.0 | water_temp => 22.0
  | air_temp => 25.0 | humidity => 60.0 | light => 500.0
  end.

(** [variation_params[p]['drift']] and [variation_params[p]['noise']]. *)
Definition drift (p : param) : R :=
  match p with
  | ec => 0.1 | ph => 0.05 | water_temp => 0.2
  | air_temp => 0.5 | humidity => 1.0 | light => 50.0
  end.

Definition noise (p : param) : R :=
  match p with
  | ec => 0.05 | ph => 0.02 | water_temp => 0.1
  | air_temp => 0.2 | humidity => 0.5 | light => 20.0
  end.

(** [limits[p]['min']] and [limits[p]['max']]. *)
Definition lim_min (p : param) : R :=
  match p with
  | ec => 0.8 | ph => 5.5 | water_temp => 18.0
  | air_temp => 20.0 | humidity => 50.0 | light => 100.0
  end.

Definition lim_max (p : param) : R :=
  match p with
  | ec => 3.0 | ph => 6.5 | water_temp => 26.0
  | air_temp => 30.0 | humidity => 70.0 | light => 1000.0
  end.

(** [_apply_daily_cycle(hour)]. *)
Definition apply_daily_cycle (hour : Z) (st : state) (g : Rng) : state * Rng :=
  let day_progress := ((hour - 6) mod 24)%Z in
  let '(st1, g1) :=
    if ((6 <=? hour)%Z && (hour <? 18)%Z)%bool then
      let light_factor := sin (PI * IZR day_progress / 12) in
      (set st light (500 + 400 * light_factor), g)
    else
      let (u, g1) := uniform 0 10 g in (set st light u, g1) in
  let temp_factor := sin (PI * IZR ((day_progress - 2) mod 24) / 12) in
  let st2 := set st1 air_temp (25 + 3 * temp_factor) in
  let water_temp_factor := sin (PI * IZR ((day_progress - 4) mod 24) / 12) in
  let st3 := set st2 water_temp (22 + 2 * water_temp_factor) in
  let humidity_factor := - sin (PI * IZR day_progress / 12) in
  let st4 := set st3 humidity (60 + 5 * humidity_factor) in
  (st4, g1).

(** One iteration of the loop of [_apply_random_drift]. *)
Definition drift_one (p : param) (sg : state * Rng) : state * Rng :=
  let (st, g) := sg in
  let d := drift p in
  let n := noise p in
  let (u, g1) := uniform (- d) d g in
  let (z, g2) := gauss 0 n g1 in
  let change := u + z in
  let st1 := set st p (st p + change) in
  let st2 := set st1 p (Rmax (lim_min p) (Rmin (lim_max p) (st1 p))) in
  (st2, g2).

(** The loop over the parameters, in a given iteration order. *)
Definition drift_loop (order : list param) (st : state) (g : Rng) : state * Rng :=
  fold_left (fun sg p => drift_one p sg) order (st, g).

(** [_apply_random_drift()]: the loop in the dict's iteration order. *)
Definition apply_random_drift (st : state) (g : Rng) : state * Rng :=
  drift_loop keys st g.

(** [_apply_correlations()]. *)
Definition apply_correlations (st : state) : state :=
  let ph_change := (st ec - 1.5) * -0.1 in
  let st1 := set st ph (Rmax 5.5 (Rmin 6.5 (st ph + ph_change))) in
  let humidity_change := (25 - st1 air_temp) * 0.5 in
  set st1 humidity (Rmax 50 (Rmin 70 (st1 humidity + humidity_change))).

Record reading := mkReading
  { readingType : string; readingValue : R; readingUnit : string }.

(** The list literal built at the end of [generate_reading()]. *)
Definition readings_of (st : state) : list reading :=
  [ mkReading "ec" (round2 (st ec)) "mS/cm";
    mkReading "ph" (round2 (st ph)) "pH";
    mkReading "water_temperature" (round2 (st water_temp)) "C";
    mkReading "air_temperature" (round2 (st air_temp)) "C";
    mkReading "humidity" (round2 (st humidity)) "%";
    mkReading "light" (round2 (st light)) "PPFD" ].

(** [generate_reading()], with [datetime.now().hour] given as [hour]. *)
Definition generate_reading (hour : Z) (st : state) (g : Rng)
  : list reading * state * Rng :=
  let (st1, g1) := apply_daily_cycle hour st g in
  let (st2, g2) := apply_random_drift st1 g1 in
  let st3 := apply_correlations st2 in
  (readings_of st3, st3, g2).

(** Consecutive ticks, one per hour of [hours]: the snapshots, the final
    state and the final source. *)
Fixpoint run (hours : list Z) (st : state) (g : Rng)
  : list (list reading) * state * Rng :=
  match hours with
  | [] => ([], st, g)
  | h :: hs =>
      let '(rs, st1, g1) := generate_reading h st g in
      let '(out, st2, g2) := run hs st1 g1 in
      (rs :: out, st2, g2)
  end.

Definition in_bounds_p (st : state) (p : param) : Prop :=
  lim_min p <= st p <= lim_max p.

Definition in_bounds (st : state) : Prop := forall p, in_bounds_p st p.

End HydroponicSystem.

(** ** The independent oscillator: class [HydroponicDataSensor] (auto.py) *)

Module HydroponicDataSensor.

Record sensor := mkSensor
  { base_value : R; min_value : R; max_value : R; volatility : R;
    current_value : R; time_index : Z }.

(** [__init__(base_value, min_value, max_value, volatility)]. *)
Definition init (base_value min_value max_value volatility : R) : sensor :=
  mkSensor base_value min_value max_value volatility base_value 0.

(** [get_next_value()]: the returned value, the updated object and source. *)
Definition get_next_value (s : sensor) (g : Rng) : R * sensor * Rng :=
  let cycle_factor := sin (IZR (time_index s) * 0.5) * 0.3 in
  let (random_factor, g1) := uniform (- volatility s) (volatility s) g in
  let new_value := current_value s + cycle_factor + random_factor in
  let new_value := Rmax (min_value s) (Rmin new_value (max_value s)) in
  let s1 := mkSensor (base_value s) (min_value s) (max_value s) (volatility s)
              new_value (time_index s + 1) in
  (round2 new_value, s1, g1).

(** [n] consecutive calls: the returned values, the object and the source. *)
Fixpoint calls (n : nat) (s : sensor) (g : Rng) : list R * sensor * Rng :=
  match n with
  | O => ([], s, g)
  | S k =>
      let '(v, s1, g1) := get_next_value s g in
      let '(vs, s2, g2) := calls k s1 g1 in
      (v :: vs, s2, g2)
  end.

End HydroponicDataSensor.

(** ** [main()] of auto.py: four sensors logged in a loop *)

Module AutoMain.
Import HydroponicDataSensor.

(** The four sensors built by [main()] (entities 11 to 14). *)
Definition ec_sensor : sensor := init 1850 1200 2500 50.
Definition ph_sensor : sensor := init 6.0 5.5 6.5 0.2.
Definition temp_sensor : sensor := init 22.5 20 25 0.5.
Definition humidity_sensor : sensor := init 65 60 70 2.

(** One pass of the [while] body: for each entity in turn, [get_next_value()]
    followed by [logger.insert_reading(entity_id, value)].  The inserted
    [(entity_id, value)] pairs are returned in call order. *)
Definition loop_body (s11 s12 s13 s14 : sensor) (g : Rng)
  : list (string * R) * (sensor * sensor * sensor * sensor) * Rng :=
  let '(v11, s11', g1) := get_next_value s11 g in
  let '(v12, s12', g2) := get_next_value s12 g1 in
  let '(v13, s13', g3) := get_next_value s13 g2 in
  let '(v14, s14', g4) := get_next_value s14 g3 in
  ([("11"%string, v11); ("12"%string, v12); ("13"%string, v13); ("14"%string, v14)],
   (s11', s12', s13', s14'), g4).

(** [n] passes of the loop (the source runs it until an hour has elapsed). *)
Fixpoint loop (n : nat) (s11 s12 s13 s14 : sensor) (g : Rng) : list (string * R) :=
  match n with
  | O => []
  | S k =>
      let '(ins, (a, b, c, d), g1) := loop_body s11 s12 s13 s14 g in
      ins ++ loop k a b c d g1
  end.

Definition main (n : nat) (g : Rng) : list (string * R) :=
  loop n ec_sensor ph_sensor temp_sensor humidity_sensor g.

End AutoMain.

(** ** The text payload of [ICPClient.send_reading] (motoko.py) *)

Module SendReading.
Import HydroponicSystem.

(** [f"type:{t},value:{v},unit:{u}"], with [fmt] standing for Python's
    [str()] of a float. *)
Definition piece (fmt : R -> string) (r : reading) : string :=
  ("type:" ++ readingType r ++ ",value:" ++ fmt (readingValue r) ++ ",unit:"
   ++ readingUnit r)%string.

(** The [for reading in readings] loop with its [first] flag. *)
Fixpoint text_loop (fmt : R -> string) (first : bool) (acc : string)
  (rs : list reading) : string :=
  match rs with
  | [] => acc
  | r :: rs' =>
      let acc1 := if negb first then (acc ++ ",")%string else acc in
      text_loop fmt false (acc1 ++ piece fmt r)%string rs'
  end.

Definition readings_text (fmt : R -> string) (rs : list reading) : string :=
  text_loop fmt true "" rs.

(** Python's [s.split(',')], to read the payload back. *)
Fixpoint split_acc (cur s : string) : list string :=
  match s with
  | EmptyString => [cur]
  | String c s' =>
      if Ascii.eqb c ","%char then cur :: split_acc EmptyString s'
      else split_acc (cur ++ String c EmptyString)%string s'
  end.

Definition split_comma (s : string) : list string := split_acc EmptyString s.

Fixpoint comma_free (s : string) : bool :=
  match s with
  | EmptyString => true
  | String c s' => negb (Ascii.eqb c ","%char) && comma_free s'
  end.

End SendReading.

(** ** General lemmas *)

Lemma clamp_in (lo hi v : R) : lo <= hi -> lo <= Rmax lo (Rmin hi v) <= hi.
Proof.
  intros H; unfold Rmax, Rmin.
  destruct (Rle_dec hi v), (Rle_dec lo hi), (Rle_dec lo v); lra.
Qed.

Lemma clamp_id (lo hi v : R) : lo <= v <= hi -> Rmax lo (Rmin hi v) = v.
Proof.
  intros H; unfold Rmax, Rmin.
  destruct (Rle_dec hi v), (Rle_dec lo hi), (Rle_dec lo v); lra.
Qed.

(** The clamp of [get_next_value], [max(lo, min(v, hi))]. *)
Lemma clamp_in_r (lo hi v : R) : lo <= hi -> lo <= Rmax lo (Rmin v hi) <= hi.
Proof. intros H; rewrite Rmin_comm; apply clamp_in, H. Qed.

Lemma clamp_inverted (lo hi v : R) : hi < lo -> Rmax lo (Rmin v hi) = lo.
Proof. intros H; apply Rmax_left; pose proof (Rmin_r v hi); lra. Qed.

Lemma floor_spec (y : R) (z : Z) : IZR z <= y < IZR z + 1 -> floor_ y = z.
Proof.
  intros [H1 H2]; unfold floor_.
  rewrite <- (tech_up y (z + 1)); [lia | |]; rewrite plus_IZR; lra.
Qed.

Lemma floor_ge (y : R) (n : Z) : IZR n <= y -> (n <= floor_ y)%Z.
Proof.
  intros H; unfold floor_.
  destruct (archimed y) as [H1 _].
  assert (IZR n < IZR (up y)) as H2 by lra.
  apply lt_IZR in H2; lia.
Qed.

Lemma round_half_even_ge_floor (y : R) : (floor_ y <= round_half_even y)%Z.
Proof.
  unfold round_half_even.
  destruct (Rlt_dec _ _); [lia|].
  destruct (Rlt_dec _ _); [lia|].
  destruct (Z.even _); lia.
Qed.

Lemma round2_ge (x : R) (n : Z) : IZR n <= x -> IZR n <= round2 x.
Proof.
  intros H; unfold round2.
  assert (IZR (n * 100) <= x * 100) as H1 by (rewrite mult_IZR; lra).
  pose proof (floor_ge _ _ H1) as H2.
  pose proof (round_half_even_ge_floor (x * 100)) as H3.
  assert (IZR (n * 100) <= IZR (round_half_even (x * 100))) as H4
    by (apply IZR_le; lia).
  rewrite mult_IZR in H4; lra.
Qed.

Module HydroponicSystemFacts.
Import HydroponicSystem.

Lemma set_eq (st : state) (p : param) (v : R) : set st p v p = v.
Proof. unfold set; destruct (param_eq_dec p p); congruence. Qed.

Lemma set_neq (st : state) (p q : param) (v : R) :
  q <> p -> set st p v q = st q.
Proof. intros H; unfold set; destruct (param_eq_dec q p); congruence. Qed.

Lemma lim_ok (p : param) : lim_min p <= lim_max p.
Proof. destruct p; simpl; lra. Qed.

(** Reading [n] variates past the current position. *)
Definition at_ (g : Rng) (n : nat) : R := stream g (pos g + n).

(** The value one iteration of the drift loop gives to its parameter. *)
Definition drifted (st : state) (p : param) (g : Rng) (n : nat) : R :=
  Rmax (lim_min p) (Rmin (lim_max p)
    (st p + ((- drift p + (drift p - - drift p) * at_ g n)
             + (0 + at_ g (S n) * noise p)))).

Lemma drift_one_val (p q : param) (st : state) (g : Rng) :
  fst (drift_one p (st, g)) q = if param_eq_dec q p then drifted st p g 0 else st q.
Proof.
  unfold drift_one, uniform, gauss, random_, drifted, at_; simpl.
  rewrite Nat.add_0_r, <- plus_n_Sm, Nat.add_0_r.
  destruct (param_eq_dec q p) as [->|Hne].
  - rewrite !set_eq; reflexivity.
  - rewrite !set_neq by assumption; reflexivity.
Qed.

Lemma drift_one_rng (p : param) (st : state) (g : Rng) :
  snd (drift_one p (st, g)) = mkRng (stream g) (S (S (pos g))).
Proof. reflexivity. Qed.

Lemma drift_loop_cons (p : param) (order : list param) (st : state) (g : Rng) :
  drift_loop (p :: order) st g =
  drift_loop order (fst (drift_one p (st, g))) (snd (drift_one p (st, g))).
Proof. unfold drift_loop; simpl; destruct (drift_one p (st, g)); reflexivity. Qed.

(** The drift loop gives every parameter of a duplicate-free order the value
    computed from its own two draws, leaves the others alone, and consumes
    two draws per parameter. *)
Lemma drift_loop_spec (order : list param) :
  NoDup order ->
  forall (st : state) (g : Rng),
    (forall p i, nth_error order i = Some p ->
       fst (drift_loop order st g) p = drifted st p g (2 * i)) /\
    (forall p, ~ In p order -> fst (drift_loop order st g) p = st p) /\
    snd (drift_loop order st g) = mkRng (stream g) (pos g + 2 * length order).
Proof.
  induction order as [|a order IH]; intros Hnd st g.
  - split; [intros p [|i]; discriminate|].
    split; [reflexivity|]. simpl; rewrite Nat.add_0_r; destruct g; reflexivity.
  - inversion Hnd as [|? ? Hna Hnd']; subst.
    destruct (IH Hnd' (fst (drift_one a (st, g))) (snd (drift_one a (st, g))))
      as [IH1 [IH2 IH3]].
    rewrite drift_one_rng in IH1, IH2, IH3.
    repeat split.
    + intros p [|i] Hi; rewrite drift_loop_cons, drift_one_rng.
      * simpl in Hi; injection Hi as <-.
        rewrite IH2 by assumption. rewrite drift_one_val.
        destruct (param_eq_dec a a); [|congruence].
        rewrite Nat.mul_0_r; reflexivity.
      * simpl in Hi. rewrite (IH1 p i Hi).
        assert (p <> a) as Hpa
          by (intros ->; apply Hna; eapply nth_error_In; eauto).
        unfold drifted, at_.
        rewrite drift_one_val; destruct (param_eq_dec p a); [congruence|].
        cbn [pos stream].
        replace (S (S (pos g)) + S (2 * i))%nat with (pos g + S (2 * S i))%nat by lia.
        replace (S (S (pos g)) + 2 * i)%nat with (pos g + 2 * S i)%nat by lia.
        reflexivity.
    + intros p Hp; rewrite drift_loop_cons, drift_one_rng.
      rewrite IH2 by (intros H; apply Hp; right; exact H).
      rewrite drift_one_val.
      destruct (param_eq_dec p a); [subst; exfalso; apply Hp; left; reflexivity|].
      reflexivity.
    + rewrite drift_loop_cons, drift_one_rng, IH3; simpl; f_equal; lia.
Qed.


Ltac simpl_set :=
  repeat match goal with
  | |- context [set ?st ?p ?v ?q] =>
      first [ rewrite (set_eq st p v) | rewrite (set_neq st p q v) by discriminate ]
  end.

Lemma keys_nodup : NoDup keys.
Proof. unfold keys; repeat constructor; simpl; intuition discriminate. Qed.

Lemma keys_all (p : param) : In p keys.
Proof. destruct p; simpl; tauto. Qed.

(** The oscillator stage, with the two branches of its [if] written out. *)
Definition day_light (hour : Z) (g : Rng) : R :=
  if ((6 <=? hour)%Z && (hour <? 18)%Z)%bool
  then 500 + 400 * sin (PI * IZR ((hour - 6) mod 24) / 12)
  else 0 + (10 - 0) * stream g (pos g).

Lemma apply_daily_cycle_eq (hour : Z) (st : state) (g : Rng) :
  apply_daily_cycle hour st g =
  (set (set (set (set st light (day_light hour g))
     air_temp (25 + 3 * sin (PI * IZR (((hour - 6) mod 24 - 2) mod 24) / 12)))
     water_temp (22 + 2 * sin (PI * IZR (((hour - 6) mod 24 - 4) mod 24) / 12)))
     humidity (60 + 5 * - sin (PI * IZR ((hour - 6) mod 24) / 12)),
   if ((6 <=? hour)%Z && (hour <? 18)%Z)%bool then g
   else mkRng (stream g) (S (pos g))).
Proof.
  unfold apply_daily_cycle, day_light, uniform, random_.
  destruct ((6 <=? hour)%Z && (hour <? 18)%Z)%bool; reflexivity.
Qed.

Lemma sin_day (dp : Z) : (0 <= dp <= 12)%Z -> 0 <= sin (PI * IZR dp / 12) <= 1.
Proof.
  intros Hdp.
  assert (0 <= IZR dp <= 12) as [H1 H2]
    by (split; [apply (IZR_le 0) | apply (IZR_le _ 12)]; lia).
  pose proof PI_RGT_0 as Hpi.
  split; [|apply SIN_bound].
  apply sin_ge_0.
  - apply Rmult_le_pos; [apply Rmult_le_pos; lra | lra].
  - assert (PI * IZR dp <= PI * 12) by (apply Rmult_le_compat_l; lra).
    unfold Rdiv; lra.
Qed.

(** The oscillator output is inside the registry bounds for every
    parameter except the night-time light. *)
Lemma daily_cycle_bounds (hour : Z) (st : state) (g : Rng) (p : param) :
  in_bounds st -> (p <> light \/ (6 <= hour < 18)%Z) ->
  in_bounds_p (fst (apply_daily_cycle hour st g)) p.
Proof.
  intros Hb Hp; rewrite apply_daily_cycle_eq; unfold in_bounds_p; simpl fst.
  destruct p; simpl_set; try apply Hb; cbn [lim_min lim_max].
  - pose proof (SIN_bound (PI * IZR (((hour - 6) mod 24 - 4) mod 24) / 12)); lra.
  - pose proof (SIN_bound (PI * IZR (((hour - 6) mod 24 - 2) mod 24) / 12)); lra.
  - pose proof (SIN_bound (PI * IZR ((hour - 6) mod 24) / 12)); lra.
  - destruct Hp as [Hp | Hh]; [congruence|].
    unfold day_light.
    replace ((6 <=? hour)%Z && (hour <? 18)%Z)%bool with true
      by (symmetry; apply andb_true_iff; split; [apply Z.leb_le | apply Z.ltb_lt]; lia).
    rewrite Z.mod_small by lia.
    pose proof (sin_day (hour - 6) ltac:(lia)); lra.
Qed.

Lemma drift_in_bounds (st : state) (g : Rng) :
  in_bounds (fst (apply_random_drift st g)).
Proof.
  intros p; unfold apply_random_drift, in_bounds_p.
  destruct (In_nth_error _ _ (keys_all p)) as [i Hi].
  destruct (drift_loop_spec keys keys_nodup st g) as [H1 _].
  rewrite (H1 p i Hi); unfold drifted.
  apply clamp_in, lim_ok.
Qed.

Lemma correlations_in_bounds (st : state) :
  in_bounds st -> in_bounds (apply_correlations st).
Proof.
  intros Hb p; unfold apply_correlations, in_bounds_p.
  destruct p; simpl_set; try apply Hb; cbn [lim_min lim_max];
    lazymatch goal with
    | |- context [Rmax ?a (Rmin ?b ?v)] => pose proof (clamp_in a b v ltac:(lra))
    end; lra.
Qed.

Lemma generate_reading_in_bounds (hour : Z) (st : state) (g : Rng) :
  in_bounds (snd (fst (generate_reading hour st g))).
Proof.
  unfold generate_reading.
  destruct (apply_daily_cycle hour st g) as [st1 g1].
  pose proof (drift_in_bounds st1 g1) as Hd.
  destruct (apply_random_drift st1 g1) as [st2 g2].
  apply correlations_in_bounds; exact Hd.
Qed.

Lemma run_in_bounds (hs : list Z) :
  forall (st : state) (g : Rng), in_bounds st -> in_bounds (snd (fst (run hs st g))).
Proof.
  induction hs as [|h hs IH]; intros st g Hb; simpl; [exact Hb|].
  pose proof (generate_reading_in_bounds h st g) as H1.
  destruct (generate_reading h st g) as [[rs st1] g1]; simpl in H1.
  pose proof (IH st1 g1 H1) as H2.
  destruct (run hs st1 g1) as [[out st2] g2]; exact H2.
Qed.

Lemma init_in_bounds : in_bounds init_state.
Proof. intros p; unfold in_bounds_p; destruct p; simpl; lra. Qed.

(** Two sources that will deliver the same variates from now on. *)
Definition same_draws (g1 g2 : Rng) : Prop :=
  forall k, stream g1 (pos g1 + k) = stream g2 (pos g2 + k).

Lemma same_draws_skip (g1 g2 : Rng) (n : nat) :
  same_draws g1 g2 ->
  same_draws (mkRng (stream g1) (pos g1 + n)) (mkRng (stream g2) (pos g2 + n)).
Proof.
  intros H k; cbn [stream pos].
  rewrite <- !Nat.add_assoc; apply H.
Qed.

Lemma daily_cycle_det (hour : Z) (st : state) (g1 g2 : Rng) :
  same_draws g1 g2 ->
  fst (apply_daily_cycle hour st g1) = fst (apply_daily_cycle hour st g2) /\
  same_draws (snd (apply_daily_cycle hour st g1)) (snd (apply_daily_cycle hour st g2)).
Proof.
  intros H; rewrite !apply_daily_cycle_eq; cbn [fst snd].
  unfold day_light.
  destruct ((6 <=? hour)%Z && (hour <? 18)%Z)%bool.
  - split; [reflexivity | exact H].
  - pose proof (H 0%nat) as H0; rewrite !Nat.add_0_r in H0.
    rewrite H0; split; [reflexivity|].
    pose proof (same_draws_skip g1 g2 1 H) as H1.
    rewrite !Nat.add_1_r in H1; exact H1.
Qed.

Lemma drift_det (st : state) (g1 g2 : Rng) :
  same_draws g1 g2 ->
  fst (apply_random_drift st g1) = fst (apply_random_drift st g2) /\
  same_draws (snd (apply_random_drift st g1)) (snd (apply_random_drift st g2)).
Proof.
  intros H; unfold apply_random_drift.
  destruct (drift_loop_spec keys keys_nodup st g1) as [A1 [_ C1]].
  destruct (drift_loop_spec keys keys_nodup st g2) as [A2 [_ C2]].
  split.
  - apply functional_extensionality; intros p.
    destruct (In_nth_error _ _ (keys_all p)) as [i Hi].
    rewrite (A1 p i Hi), (A2 p i Hi); unfold drifted, at_.
    rewrite !H; reflexivity.
  - rewrite C1, C2; apply same_draws_skip, H.
Qed.

Lemma generate_reading_det (hour : Z) (st : state) (g1 g2 : Rng) :
  same_draws g1 g2 ->
  fst (generate_reading hour st g1) = fst (generate_reading hour st g2) /\
  same_draws (snd (generate_reading hour st g1)) (snd (generate_reading hour st g2)).
Proof.
  intros H; unfold generate_reading.
  destruct (daily_cycle_det hour st g1 g2 H) as [E1 H1].
  destruct (apply_daily_cycle hour st g1) as [s1 r1],
           (apply_daily_cycle hour st g2) as [s2 r2]; cbn [fst snd] in *; subst s2.
  destruct (drift_det s1 r1 r2 H1) as [E2 H2].
  destruct (apply_random_drift s1 r1) as [t1 q1],
           (apply_random_drift s1 r2) as [t2 q2]; cbn [fst snd] in *; subst t2.
  split; [reflexivity | exact H2].
Qed.

Lemma run_det (hs : list Z) :
  forall (st : state) (g1 g2 : Rng), same_draws g1 g2 ->
  fst (run hs st g1) = fst (run hs st g2) /\
  same_draws (snd (run hs st g1)) (snd (run hs st g2)).
Proof.
  induction hs as [|h hs IH]; intros st g1 g2 H; simpl; [split; [reflexivity | exact H]|].
  destruct (generate_reading_det h st g1 g2 H) as [E1 H1].
  destruct (generate_reading h st g1) as [[rs1 s1] r1],
           (generate_reading h st g2) as [[rs2 s2] r2]; cbn [fst snd] in *.
  injection E1 as <- <-.
  destruct (IH s1 r1 r2 H1) as [E2 H2].
  destruct (run hs s1 r1) as [[o1 t1] q1], (run hs s1 r2) as [[o2 t2] q2];
    cbn [fst snd] in *.
  injection E2 as <- <-.
  split; [reflexivity | exact H2].
Qed.

(** Position of a parameter in the iteration order [keys]. *)
Definition key_index (p : param) : nat :=
  match p with
  | ec => 0 | ph => 1 | water_temp => 2 | air_temp => 3 | humidity => 4 | light => 5
  end.

Lemma key_index_nth (p : param) : nth_error keys (key_index p) = Some p.
Proof. destruct p; reflexivity. Qed.

End HydroponicSystemFacts.

Module HydroponicDataSensorFacts.
Import HydroponicDataSensor.

Lemma get_next_value_eq (s : sensor) (g : Rng) :
  get_next_value s g =
  (round2 (Rmax (min_value s) (Rmin (current_value s + sin (IZR (time_index s) * 0.5) * 0.3
      + fst (uniform (- volatility s) (volatility s) g)) (max_value s))),
   mkSensor (base_value s) (min_value s) (max_value s) (volatility s)
     (Rmax (min_value s) (Rmin (current_value s + sin (IZR (time_index s) * 0.5) * 0.3
        + fst (uniform (- volatility s) (volatility s) g)) (max_value s)))
     (time_index s + 1),
   snd (uniform (- volatility s) (volatility s) g)).
Proof. reflexivity. Qed.

(** A property of the bounds and the current value that every single call
    establishes holds after any positive number of calls. *)
Lemma calls_last (Q : R -> R -> R -> Prop) :
  (forall s g, Q (min_value s) (max_value s)
                 (current_value (snd (fst (get_next_value s g))))) ->
  forall n s g,
    min_value (snd (fst (calls (S n) s g))) = min_value s /\
    max_value (snd (fst (calls (S n) s g))) = max_value s /\
    Q (min_value s) (max_value s) (current_value (snd (fst (calls (S n) s g)))).
Proof.
  intros HQ n; induction n as [|n IH]; intros s g.
  - pose proof (HQ s g) as H.
    rewrite get_next_value_eq in H; cbn [calls]; rewrite get_next_value_eq.
    cbn [fst snd min_value max_value current_value] in *.
    repeat split; exact H.
  - change (calls (S (S n)) s g) with
      (let '(v, s1, g1) := get_next_value s g in
       let '(vs, s2, g2) := calls (S n) s1 g1 in (v :: vs, s2, g2)).
    rewrite get_next_value_eq; cbv beta iota zeta.
    match goal with
    | |- context [calls (S n) ?s1 ?g1] =>
        pose proof (IH s1 g1) as [H1 [H2 H3]];
        destruct (calls (S n) s1 g1) as [[vs s2] g2]
    end.
    cbn [fst snd min_value max_value] in *.
    repeat split; assumption.
Qed.

End HydroponicDataSensorFacts.

(** ** The claims *)

Import HydroponicSystem HydroponicSystemFacts.

(** C1 (as amended).  From the initial state, after any sequence of ticks, the
    state is within the registry bounds; in the next tick, the oscillator
    stage leaves every parameter within bounds except the light written in a
    night hour, and the drift and correlation stages leave all six within
    bounds. *)
Theorem stage_bounds_invariant (hs : list Z) (g : Rng) (hour : Z) :
  let st := snd (fst (run hs init_state g)) in
  let g1 := snd (run hs init_state g) in
  let osc := apply_daily_cycle hour st g1 in
  let dr := apply_random_drift (fst osc) (snd osc) in
  in_bounds st /\
  (forall p, p <> light \/ (6 <= hour < 18)%Z -> in_bounds_p (fst osc) p) /\
  in_bounds (fst dr) /\
  in_bounds (apply_correlations (fst dr)).
Proof.
  cbv zeta.
  pose proof (run_in_bounds hs init_state g init_in_bounds) as Hb.
  split; [exact Hb|]. split.
  - intros p Hp; apply daily_cycle_bounds; assumption.
  - split; [apply drift_in_bounds|].
    apply correlations_in_bounds, drift_in_bounds.
Qed.

(** C1 counterexample: at hour 0 the oscillator stage, run on the initial
    state, writes light = 5 (a draw of 0.5 scaled to [0, 10]), below light's
    minimum 100. *)
Lemma night_light_below_min :
  ~ in_bounds_p (fst (apply_daily_cycle 0 init_state (mkRng (fun _ => 1 / 2) 0))) light.
Proof.
  rewrite apply_daily_cycle_eq; unfold in_bounds_p; cbn [fst].
  simpl_set; unfold day_light.
  change ((6 <=? 0)%Z && (0 <? 18)%Z)%bool with false; cbn [lim_min lim_max stream pos].
  lra.
Qed.

(** C2.  Every tick leaves all six parameters within their bounds, whatever
    the hour, the state before it and the draws; hence so does every number
    of consecutive ticks from the initial state. *)
Theorem generate_reading_bounds :
  (forall hour st g, in_bounds (snd (fst (generate_reading hour st g)))) /\
  (forall hs g, in_bounds (snd (fst (run hs init_state g)))).
Proof.
  split.
  - apply generate_reading_in_bounds.
  - intros hs g; apply run_in_bounds, init_in_bounds.
Qed.

(** C3.  For every hour 0-23 the oscillator stage sets light by the daylight
    sinusoid (hours 6-17, no draw) or a uniform draw from [0, 10] (other
    hours), overwrites air and water temperature and humidity by their
    sinusoids of [day_progress = (hour - 6) mod 24], and keeps ec and ph; at
    hour 12 it sets light to 900. *)
Theorem daily_cycle_formulas (hour : Z) (st : state) (g : Rng) :
  (0 <= hour <= 23)%Z ->
  let day_progress := ((hour - 6) mod 24)%Z in
  let osc := apply_daily_cycle hour st g in
  (((6 <= hour < 18)%Z /\
    fst osc light = 500 + 400 * sin (PI * IZR day_progress / 12) /\ snd osc = g) \/
   ((hour < 6 \/ 18 <= hour)%Z /\
    (fst osc light, snd osc) = uniform 0 10 g /\
    (0 <= stream g (pos g) <= 1 -> 0 <= fst osc light <= 10))) /\
  fst osc air_temp = 25 + 3 * sin (PI * IZR ((day_progress - 2) mod 24) / 12) /\
  fst osc water_temp = 22 + 2 * sin (PI * IZR ((day_progress - 4) mod 24) / 12) /\
  fst osc humidity = 60 - 5 * sin (PI * IZR day_progress / 12) /\
  fst osc ec = st ec /\ fst osc ph = st ph /\
  fst (apply_daily_cycle 12 st g) light = 900.
Proof.
  intros Hh; cbv zeta.
  rewrite !apply_daily_cycle_eq; cbn [fst snd]; simpl_set.
  split; [|split; [reflexivity|split; [reflexivity|split; [ring|]]]].
  - unfold day_light.
    destruct ((6 <=? hour)%Z && (hour <? 18)%Z)%bool eqn:Hd.
    + left. apply andb_true_iff in Hd as [Ha Hb].
      apply Z.leb_le in Ha; apply Z.ltb_lt in Hb.
      repeat split; lia.
    + right. apply andb_false_iff in Hd.
      split; [destruct Hd as [Hd|Hd]; [apply Z.leb_gt in Hd | apply Z.ltb_ge in Hd]; lia|].
      split; [reflexivity|]. intros Hu; lra.
  - split; [reflexivity | split; [reflexivity|]].
    unfold day_light.
    change ((6 <=? 12)%Z && (12 <? 18)%Z)%bool with true.
    change ((12 - 6) mod 24)%Z with 6%Z.
    replace (PI * IZR 6 / 12) with (PI / 2) by field.
    rewrite sin_PI2; lra.
Qed.

Lemma daily_cycle_formulas_witness :
  (0 <= 3 <= 23)%Z /\
  fst (apply_daily_cycle 3 init_state (mkRng (fun _ => 1 / 2) 0)) ec = 1.5.
Proof.
  split; [lia|].
  pose proof (daily_cycle_formulas 3 init_state (mkRng (fun _ => 1 / 2) 0)
                ltac:(lia)) as H.
  cbv zeta in H; destruct H as (_ & _ & _ & _ & H & _).
  rewrite H; reflexivity.
Defined.

(** C10.  After a tick at a night hour, the stored light is at least 100 and
    the light reading of the snapshot is at least 100, so never in [0, 10]. *)
Theorem night_light_clamped (hour : Z) (st : state) (g : Rng) :
  (hour < 6 \/ 18 <= hour)%Z ->
  let '(rs, st', _) := generate_reading hour st g in
  100 <= st' light /\
  Forall (fun r => readingType r = "light"%string -> 100 <= readingValue r) rs /\
  Forall (fun r => readingType r = "light"%string -> ~ (0 <= readingValue r <= 10)) rs.
Proof.
  intros _.
  pose proof (generate_reading_in_bounds hour st g light) as Hb.
  unfold generate_reading in *.
  destruct (apply_daily_cycle hour st g) as [st1 g1].
  destruct (apply_random_drift st1 g1) as [st2 g2].
  unfold in_bounds_p in Hb; cbn [fst snd lim_min lim_max] in Hb.
  assert (100 <= round2 (apply_correlations st2 light)) as Hr
    by (apply (round2_ge _ 100); lra).
  split; [lra|].
  split; unfold readings_of;
    repeat apply Forall_cons; try apply Forall_nil;
    cbn [readingType readingValue]; intros E; try discriminate; lra.
Qed.

Lemma night_light_clamped_witness :
  (0 < 6 \/ 18 <= 0)%Z /\
  100 <= snd (fst (generate_reading 0 init_state (mkRng (fun _ => 1 / 2) 0))) light.
Proof.
  split; [lia|].
  pose proof (night_light_clamped 0 init_state (mkRng (fun _ => 1 / 2) 0)
                ltac:(lia)) as H.
  destruct (generate_reading 0 init_state (mkRng (fun _ => 1 / 2) 0))
    as [[rs st'] g'].
  exact (proj1 H).
Defined.

(** C4 (as amended).  The drift stage gives each parameter [p] the value
    [clamp(value + U(-drift, drift) + N(0, noise), min, max)] computed from its
    own value, its own coefficients and the two draws it reads, which are the
    variates at offsets [2 * key_index p] and [2 * key_index p + 1] of the
    source: the dict's iteration order decides which draws each parameter
    gets.  The stage reads twelve variates. *)
Theorem drift_per_parameter (st : state) (g : Rng) :
  (forall p,
     let gp := mkRng (stream g) (pos g + 2 * key_index p) in
     let (u, gu) := uniform (- drift p) (drift p) gp in
     let (z, _) := gauss 0 (noise p) gu in
     fst (apply_random_drift st g) p = clamp (st p + (u + z)) (lim_min p) (lim_max p)) /\
  snd (apply_random_drift st g) = mkRng (stream g) (pos g + 12).
Proof.
  destruct (drift_loop_spec keys keys_nodup st g) as [H1 [_ H3]].
  split; [|exact H3].
  intros p; cbv zeta; unfold apply_random_drift.
  rewrite (H1 p (key_index p) (key_index_nth p)).
  unfold drifted, at_, clamp, uniform, gauss, random_; cbn [stream pos].
  rewrite Nat.add_succ_r; reflexivity.
Qed.

(** C4 counterexample: with the same draws (1, then zeros), iterating over
    ph before ec gives ec a different value than the source's order does
    (1.4 instead of 1.6). *)
Lemma drift_order_matters :
  let g := mkRng (fun n => if Nat.eqb n 0 then 1 else 0) 0 in
  fst (drift_loop [ph; ec; water_temp; air_temp; humidity; light] init_state g) ec <>
  fst (apply_random_drift init_state g) ec.
Proof.
  cbv zeta; unfold apply_random_drift.
  assert (NoDup [ph; ec; water_temp; air_temp; humidity; light]) as Hnd
    by (repeat constructor; simpl; intuition discriminate).
  destruct (drift_loop_spec _ Hnd init_state (mkRng (fun n => if Nat.eqb n 0 then 1 else 0) 0))
    as [A _].
  destruct (drift_loop_spec _ keys_nodup init_state (mkRng (fun n => if Nat.eqb n 0 then 1 else 0) 0))
    as [B _].
  rewrite (A ec 1%nat eq_refl), (B ec 0%nat eq_refl).
  unfold drifted, at_; cbn [stream pos init_state drift noise lim_min lim_max Nat.add Nat.mul Nat.eqb].
  rewrite clamp_id by lra. rewrite clamp_id by lra.
  lra.
Qed.

(** C5.  The correlation stage sets ph, then humidity, to the clamped sums
    of the formulas, and touches no other parameter; for ec = 1.5 the ph
    delta is 0, for ec = 2.5 it is -0.1, below the pre-correlation ph. *)
Theorem correlations_formulas (st : state) :
  let st' := apply_correlations st in
  st' ph = clamp (st ph + (st ec - 1.5) * -0.1) 5.5 6.5 /\
  st' humidity = clamp (st humidity + (25 - st air_temp) * 0.5) 50 70 /\
  (forall p, p <> ph -> p <> humidity -> st' p = st p) /\
  (st ec = 1.5 -> (st ec - 1.5) * -0.1 = 0 /\ st' ph = clamp (st ph) 5.5 6.5) /\
  (st ec = 2.5 -> (st ec - 1.5) * -0.1 = -0.1 /\ st ph + (st ec - 1.5) * -0.1 < st ph).
Proof.
  cbv zeta; unfold apply_correlations, clamp; simpl_set.
  split; [reflexivity|]. split; [reflexivity|].
  split; [intros p Hph Hhu; rewrite !set_neq by assumption; reflexivity|].
  split; intros E; rewrite E; [split; [ring | f_equal; f_equal; ring] | split; lra].
Qed.

(** C6.  Every snapshot holds six readings, of the types ec, ph,
    water_temperature, air_temperature, humidity, light in this order, with
    the stored values rounded to two decimals and the units mS/cm, pH, C, C,
    %, PPFD, none empty. *)
Theorem snapshot_shape (hour : Z) (st : state) (g : Rng) :
  let rs := fst (fst (generate_reading hour st g)) in
  let st' := snd (fst (generate_reading hour st g)) in
  length rs = 6%nat /\
  map readingType rs =
    ["ec"; "ph"; "water_temperature"; "air_temperature"; "humidity"; "light"]%string /\
  map readingValue rs =
    [round2 (st' ec); round2 (st' ph); round2 (st' water_temp);
     round2 (st' air_temp); round2 (st' humidity); round2 (st' light)] /\
  map readingUnit rs = ["mS/cm"; "pH"; "C"; "C"; "%"; "PPFD"]%string /\
  Forall (fun r => readingUnit r <> ""%string) rs.
Proof.
  cbv zeta; unfold generate_reading.
  destruct (apply_daily_cycle hour st g) as [st1 g1].
  destruct (apply_random_drift st1 g1) as [st2 g2].
  cbn [fst snd readings_of map length readingType readingValue readingUnit].
  repeat split.
  repeat apply Forall_cons; try apply Forall_nil; cbn [readingUnit]; discriminate.
Qed.

(** C9.  Two runs from the same state, with the same hours and sources that
    deliver the same sequence of draws, produce the same snapshots at every
    tick and end in the same state. *)
Theorem run_deterministic (hs : list Z) (st : state) (g1 g2 : Rng) :
  same_draws g1 g2 ->
  fst (fst (run hs st g1)) = fst (fst (run hs st g2)) /\
  snd (fst (run hs st g1)) = snd (fst (run hs st g2)).
Proof.
  intros H; destruct (run_det hs st g1 g2 H) as [E _].
  rewrite E; split; reflexivity.
Qed.

Lemma run_deterministic_witness :
  same_draws (mkRng (fun _ => 0) 0) (mkRng (fun _ => 0) 7) /\
  fst (fst (run [12%Z; 0%Z] init_state (mkRng (fun _ => 0) 0))) =
  fst (fst (run [12%Z; 0%Z] init_state (mkRng (fun _ => 0) 7))).
Proof.
  assert (same_draws (mkRng (fun _ => 0) 0) (mkRng (fun _ => 0) 7)) as H
    by (intros k; reflexivity).
  split; [exact H|].
  exact (proj1 (run_deterministic [12%Z; 0%Z] init_state _ _ H)).
Defined.

Import HydroponicDataSensor HydroponicDataSensorFacts.

(** C7 (as amended).  When [min_value <= max_value], each call sets
    [current_value] to [clamp(current_value + sin(time_index * 0.5) * 0.3 +
    U(-volatility, volatility), min_value, max_value)], which lies in
    [[min_value, max_value]], increments [time_index] and returns
    [round(current_value, 2)]; after any positive number of calls the bounds
    are unchanged and [current_value] still lies within them. *)
Theorem get_next_value_clamped (s : sensor) (g : Rng) (n : nat) :
  min_value s <= max_value s ->
  (let '(v, s1, _) := get_next_value s g in
   current_value s1 =
     Rmax (min_value s) (Rmin (current_value s + sin (IZR (time_index s) * 0.5) * 0.3
       + fst (uniform (- volatility s) (volatility s) g)) (max_value s)) /\
   min_value s <= current_value s1 <= max_value s /\
   time_index s1 = (time_index s + 1)%Z /\
   v = round2 (current_value s1)) /\
  (let '(_, sn, _) := calls (S n) s g in
   min_value sn = min_value s /\ max_value sn = max_value s /\
   min_value s <= current_value sn <= max_value s).
Proof.
  intros Hle; split.
  - rewrite get_next_value_eq; cbn [current_value time_index].
    split; [reflexivity|]. split; [|split; reflexivity].
    apply clamp_in_r, Hle.
  - pose proof (calls_last (fun mn mx v => mn <= mx -> mn <= v <= mx)) as H.
    destruct (H ltac:(intros s' g' Hle'; rewrite get_next_value_eq; cbn [current_value];
                      apply clamp_in_r, Hle') n s g)
      as [H1 [H2 H3]].
    destruct (calls (S n) s g) as [[vs sn] gn]; cbn [fst snd] in *.
    split; [exact H1|]. split; [exact H2|]. exact (H3 Hle).
Qed.

Lemma get_next_value_clamped_witness :
  min_value (init 6 5.5 6.5 0.1) <= max_value (init 6 5.5 6.5 0.1) /\
  time_index (snd (fst (get_next_value (init 6 5.5 6.5 0.1) (mkRng (fun _ => 0) 0)))) = 1%Z.
Proof.
  assert (min_value (init 6 5.5 6.5 0.1) <= max_value (init 6 5.5 6.5 0.1)) as Hle
    by (cbn; lra).
  split; [exact Hle|].
  pose proof (get_next_value_clamped (init 6 5.5 6.5 0.1) (mkRng (fun _ => 0) 0) 0 Hle)
    as [H _].
  destruct (get_next_value (init 6 5.5 6.5 0.1) (mkRng (fun _ => 0) 0)) as [[v s1] g1].
  destruct H as (_ & _ & H & _); exact H.
Defined.

Lemma round2_small : round2 (2 / 1000) = 0.
Proof.
  unfold round2, round_half_even.
  rewrite (floor_spec (2 / 1000 * 100) 0) by lra.
  destruct (Rlt_dec _ _) as [_|Hn]; [|lra].
  unfold Rdiv; rewrite Rmult_0_l; reflexivity.
Qed.

(** C7 counterexample: a sensor with bounds [0.001, 0.004] and current value
    0.002 returns 0.0 (0.002 rounded to two decimals) on its first call,
    outside its bounds. *)
Lemma rounded_value_below_min :
  let '(v, s1, _) := get_next_value (init (2 / 1000) (1 / 1000) (4 / 1000) (1 / 10))
                                    (mkRng (fun _ => 1 / 2) 0) in
  v = 0 /\ ~ (min_value s1 <= v <= max_value s1).
Proof.
  rewrite get_next_value_eq; cbn [init base_value min_value max_value volatility
    current_value time_index uniform random_ stream pos fst].
  rewrite Rmult_0_l, sin_0.
  replace (2 / 1000 + 0 * 0.3 + (- (1 / 10) + (1 / 10 - - (1 / 10)) * (1 / 2)))
    with (2 / 1000) by field.
  rewrite Rmin_left by lra; rewrite Rmax_right by lra.
  rewrite round2_small; split; [reflexivity | lra].
Qed.

(** C8 (as amended).  Neither constructor validates bounds: the correlated
    engine takes no registry (its built-in limits all have min <= max), and
    [HydroponicDataSensor] is built with [min_value > max_value] without
    error; every later call then sets [current_value] to [min_value], above
    [max_value]. *)
Theorem inverted_bounds_accepted (b mn mx vol : R) (n : nat) (g : Rng) :
  mx < mn ->
  (forall p, HydroponicSystem.lim_min p <= HydroponicSystem.lim_max p) /\
  min_value (init b mn mx vol) = mn /\ max_value (init b mn mx vol) = mx /\
  (let '(_, sn, _) := calls (S n) (init b mn mx vol) g in
   current_value sn = mn /\ max_value sn < current_value sn).
Proof.
  intros Hlt; split; [apply lim_ok|]. split; [reflexivity|]. split; [reflexivity|].
  pose proof (calls_last (fun mn' mx' v => mx' < mn' -> v = mn')) as H.
  destruct (H ltac:(intros s' g' Hl; rewrite get_next_value_eq; cbn [current_value];
                    apply clamp_inverted, Hl)
              n (init b mn mx vol) g) as [H1 [H2 H3]].
  destruct (calls (S n) (init b mn mx vol) g) as [[vs sn] gn]; cbn [fst snd init min_value max_value] in *.
  pose proof (H3 Hlt) as E.
  split; [exact E | rewrite H2, E; exact Hlt].
Qed.

Lemma inverted_bounds_accepted_witness :
  (0 < 1) /\
  current_value (snd (fst (calls 3 (init 0 1 0 0.1) (mkRng (fun _ => 1 / 2) 0)))) = 1.
Proof.
  split; [lra|].
  pose proof (inverted_bounds_accepted 0 1 0 0.1 2 (mkRng (fun _ => 1 / 2) 0) ltac:(lra))
    as (_ & _ & _ & H).
  destruct (calls 3 (init 0 1 0 0.1) (mkRng (fun _ => 1 / 2) 0)) as [[vs sn] gn].
  exact (proj1 H).
Defined.

(** C8 counterexample: [HydroponicDataSensor(0, 1, 0)] is constructed, and its
    first call leaves [current_value = 1] outside [[1, 0]]. *)
Lemma inverted_bounds_out_of_range :
  let s1 := snd (fst (get_next_value (init 0 1 0 (1 / 10)) (mkRng (fun _ => 1 / 2) 0))) in
  current_value s1 = 1 /\ ~ (min_value s1 <= current_value s1 <= max_value s1).
Proof.
  cbv zeta; rewrite get_next_value_eq; cbn [init base_value min_value max_value volatility
    current_value time_index fst snd].
  assert (Rmax 1 (Rmin (0 + sin (IZR 0 * 0.5) * 0.3 + fst (uniform (- (1 / 10)) (1 / 10)
            (mkRng (fun _ => 1 / 2) 0))) 0) = 1) as E
    by (apply clamp_inverted; lra).
  rewrite E; split; [reflexivity | lra].
Qed.

(** ** Further properties of the code *)

Lemma floor_le (y : R) : IZR (floor_ y) <= y.
Proof. unfold floor_; rewrite minus_IZR; destruct (archimed y); lra. Qed.

Lemma round_half_even_le (y : R) : (round_half_even y <= floor_ y + 1)%Z.
Proof.
  unfold round_half_even.
  destruct (Rlt_dec _ _); [lia|]. destruct (Rlt_dec _ _); [lia|].
  destruct (Z.even _); lia.
Qed.

(** Rounding to two decimals never crosses a bound that is a whole number of
    hundredths. *)
Lemma round2_within (lo hi x : R) (a b : Z) :
  lo = IZR a / 100 -> hi = IZR b / 100 -> lo <= x <= hi -> lo <= round2 x <= hi.
Proof.
  intros -> -> [H1 H2]; unfold round2; split.
  - assert (IZR a <= x * 100) as Ha by lra.
    pose proof (floor_ge _ _ Ha) as Hf.
    pose proof (round_half_even_ge_floor (x * 100)) as Hr.
    assert (IZR a <= IZR (round_half_even (x * 100))) by (apply IZR_le; lia).
    lra.
  - assert (x * 100 <= IZR b) as Hb by lra.
    pose proof (floor_le (x * 100)) as Hf.
    assert (floor_ (x * 100) <= b)%Z as Hfb by (apply le_IZR; lra).
    assert (round_half_even (x * 100) <= b)%Z as Hr.
    { destruct (Z.eq_dec (floor_ (x * 100)) b) as [E|E].
      - unfold round_half_even. rewrite E.
        assert (x * 100 = IZR b) as Ey by (rewrite E in Hf; lra).
        destruct (Rlt_dec (x * 100 - IZR b) (1 / 2)) as [_|Hn]; [lia | lra].
      - pose proof (round_half_even_le (x * 100)); lia. }
    apply IZR_le in Hr; lra.
Qed.

Lemma clamp_step (lo hi c d : R) :
  lo <= c <= hi -> Rabs (Rmax lo (Rmin d hi) - c) <= Rabs (d - c).
Proof.
  intros Hc.
  destruct (Rle_dec d hi) as [Hd|Hd];
    [rewrite Rmin_left by lra | rewrite Rmin_right by lra].
  - destruct (Rle_dec lo d) as [Hl|Hl];
      [rewrite Rmax_right by lra | rewrite Rmax_left by lra];
      unfold Rabs; repeat destruct (Rcase_abs _); lra.
  - rewrite Rmax_right by lra.
    unfold Rabs; repeat destruct (Rcase_abs _); lra.
Qed.

Import AutoMain.

Lemma get_next_value_cents (s : sensor) (g : Rng) (a b : Z) :
  min_value s = IZR a / 100 -> max_value s = IZR b / 100 -> (a <= b)%Z ->
  IZR a / 100 <= fst (fst (get_next_value s g)) <= IZR b / 100 /\
  min_value (snd (fst (get_next_value s g))) = min_value s /\
  max_value (snd (fst (get_next_value s g))) = max_value s.
Proof.
  intros Ha Hb Hab; apply IZR_le in Hab.
  rewrite get_next_value_eq; cbn [fst snd min_value max_value].
  split; [|split; reflexivity].
  apply (round2_within _ _ _ a b); try reflexivity.
  rewrite Ha, Hb; apply clamp_in_r; lra.
Qed.

(** X1.  A sensor whose bounds are whole numbers of hundredths returns, on
    every one of any number of calls, a rounded value inside its bounds. *)
Theorem returned_values_within_cent_bounds (a b : Z) (n : nat) :
  forall (s : sensor) (g : Rng),
  min_value s = IZR a / 100 -> max_value s = IZR b / 100 -> (a <= b)%Z ->
  Forall (fun v => min_value s <= v <= max_value s) (fst (fst (calls n s g))).
Proof.
  induction n as [|n IH]; intros s g Ha Hb Hab; [constructor|].
  change (calls (S n) s g) with
    (let '(v, s1, g1) := get_next_value s g in
     let '(vs, s2, g2) := calls n s1 g1 in (v :: vs, s2, g2)).
  destruct (get_next_value_cents s g a b Ha Hb Hab) as (Hv & Hmin & Hmax).
  destruct (get_next_value s g) as [[v s1] g1]; cbn [fst snd] in *.
  pose proof (IH s1 g1 ltac:(rewrite Hmin; exact Ha) ltac:(rewrite Hmax; exact Hb) Hab)
    as Hrest.
  destruct (calls n s1 g1) as [[vs s2] g2]; cbn [fst snd] in *.
  rewrite Hmin, Hmax in Hrest.
  constructor; [rewrite Ha, Hb; exact Hv | exact Hrest].
Qed.

Lemma returned_values_within_cent_bounds_witness :
  min_value ph_sensor = IZR 550 / 100 /\ max_value ph_sensor = IZR 650 / 100 /\
  (550 <= 650)%Z /\
  Forall (fun v => 5.5 <= v <= 6.5) (fst (fst (calls 3 ph_sensor (mkRng (fun _ => 0) 0)))).
Proof.
  assert (min_value ph_sensor = IZR 550 / 100) as Ha by (cbn; lra).
  assert (max_value ph_sensor = IZR 650 / 100) as Hb by (cbn; lra).
  split; [exact Ha|]. split; [exact Hb|]. split; [lia|].
  exact (returned_values_within_cent_bounds 550 650 3 ph_sensor _ Ha Hb ltac:(lia)).
Defined.

(** X2.  From a current value inside the bounds, with a nonnegative
    volatility and a unit draw in [0, 1], one call moves [current_value] by
    at most [0.3 + volatility]. *)
Theorem step_bounded (s : sensor) (g : Rng) :
  min_value s <= current_value s <= max_value s -> 0 <= volatility s ->
  0 <= stream g (pos g) <= 1 ->
  Rabs (current_value (snd (fst (get_next_value s g))) - current_value s)
    <= 0.3 + volatility s.
Proof.
  intros Hc Hv Hx.
  rewrite get_next_value_eq; cbn [fst snd current_value].
  eapply Rle_trans; [apply clamp_step, Hc|].
  unfold uniform, random_; cbn [fst].
  pose proof (SIN_bound (IZR (time_index s) * 0.5)) as Hs.
  set (x := stream g (pos g)) in *.
  assert (0 <= (volatility s - - volatility s) * x <= volatility s - - volatility s)
    as Hm.
  { split; [apply Rmult_le_pos; lra|].
    rewrite <- (Rmult_1_r (volatility s - - volatility s)) at 2.
    apply Rmult_le_compat_l; lra. }
  unfold Rabs; destruct (Rcase_abs _); lra.
Qed.

Lemma step_bounded_witness :
  min_value temp_sensor <= current_value temp_sensor <= max_value temp_sensor /\
  0 <= volatility temp_sensor /\
  0 <= stream (mkRng (fun _ => 1 / 2) 0) (pos (mkRng (fun _ => 1 / 2) 0)) <= 1 /\
  Rabs (current_value (snd (fst (get_next_value temp_sensor (mkRng (fun _ => 1 / 2) 0))))
        - current_value temp_sensor) <= 0.3 + volatility temp_sensor.
Proof.
  assert (min_value temp_sensor <= current_value temp_sensor <= max_value temp_sensor)
    as H1 by (cbn; lra).
  assert (0 <= volatility temp_sensor) as H2 by (cbn; lra).
  assert (0 <= stream (mkRng (fun _ => 1 / 2) 0) (pos (mkRng (fun _ => 1 / 2) 0)) <= 1)
    as H3 by (cbn; lra).
  split; [exact H1|]. split; [exact H2|]. split; [exact H3|].
  exact (step_bounded temp_sensor _ H1 H2 H3).
Defined.

(** The ranges of the four sensors of [main()], as hundredths. *)
Definition main_ranges_ok (s11 s12 s13 s14 : sensor) : Prop :=
  min_value s11 = IZR 120000 / 100 /\ max_value s11 = IZR 250000 / 100 /\
  min_value s12 = IZR 550 / 100 /\ max_value s12 = IZR 650 / 100 /\
  min_value s13 = IZR 2000 / 100 /\ max_value s13 = IZR 2500 / 100 /\
  min_value s14 = IZR 6000 / 100 /\ max_value s14 = IZR 7000 / 100.

Definition main_entity_ok (iv : string * R) : Prop :=
  (fst iv = "11"%string /\ 1200 <= snd iv <= 2500) \/
  (fst iv = "12"%string /\ 5.5 <= snd iv <= 6.5) \/
  (fst iv = "13"%string /\ 20 <= snd iv <= 25) \/
  (fst iv = "14"%string /\ 60 <= snd iv <= 70).

Lemma loop_ok (n : nat) :
  forall s11 s12 s13 s14 g, main_ranges_ok s11 s12 s13 s14 ->
  Forall main_entity_ok (loop n s11 s12 s13 s14 g) /\
  map fst (loop n s11 s12 s13 s14 g) =
    concat (repeat ["11"; "12"; "13"; "14"]%string n).
Proof.
  induction n as [|n IH]; intros s11 s12 s13 s14 g Hr; [split; [constructor | reflexivity]|].
  destruct Hr as (A1 & B1 & A2 & B2 & A3 & B3 & A4 & B4).
  cbn [loop]; unfold loop_body.
  destruct (get_next_value_cents s11 g 120000 250000 A1 B1 ltac:(lia)) as (V1 & M1 & N1).
  destruct (get_next_value s11 g) as [[v11 t11] g1]; cbn [fst snd] in *.
  destruct (get_next_value_cents s12 g1 550 650 A2 B2 ltac:(lia)) as (V2 & M2 & N2).
  destruct (get_next_value s12 g1) as [[v12 t12] g2]; cbn [fst snd] in *.
  destruct (get_next_value_cents s13 g2 2000 2500 A3 B3 ltac:(lia)) as (V3 & M3 & N3).
  destruct (get_next_value s13 g2) as [[v13 t13] g3]; cbn [fst snd] in *.
  destruct (get_next_value_cents s14 g3 6000 7000 A4 B4 ltac:(lia)) as (V4 & M4 & N4).
  destruct (get_next_value s14 g3) as [[v14 t14] g4]; cbn [fst snd] in *.
  destruct (IH t11 t12 t13 t14 g4) as [F E].
  { unfold main_ranges_ok; rewrite M1, N1, M2, N2, M3, N3, M4, N4; tauto. }
  split.
  - apply Forall_app; split; [|exact F].
    repeat apply Forall_cons; try apply Forall_nil; unfold main_entity_ok; cbn [fst snd].
    + left; split; [reflexivity | lra].
    + right; left; split; [reflexivity | lra].
    + right; right; left; split; [reflexivity | lra].
    + right; right; right; split; [reflexivity | lra].
  - rewrite map_app, E; reflexivity.
Qed.

(** X3.  Over any number of passes of its loop, [main()] inserts four
    readings per pass, for entities 11, 12, 13, 14 in this order, and every
    inserted value lies in the range of its sensor: [1200, 2500] for 11,
    [5.5, 6.5] for 12, [20, 25] for 13, [60, 70] for 14. *)
Theorem main_inserts_in_range (n : nat) (g : Rng) :
  length (main n g) = (4 * n)%nat /\
  map fst (main n g) = concat (repeat ["11"; "12"; "13"; "14"]%string n) /\
  Forall main_entity_ok (main n g).
Proof.
  assert (main_ranges_ok ec_sensor ph_sensor temp_sensor humidity_sensor) as Hr
    by (unfold main_ranges_ok; cbn; repeat split; lra).
  destruct (loop_ok n _ _ _ _ g Hr) as [F E].
  unfold main; split; [|split; [exact E | exact F]].
  rewrite <- (length_map fst), E.
  clear E F; induction n as [|n IH]; [reflexivity|].
  cbn [repeat concat]; rewrite length_app, IH; cbn [Datatypes.length]; lia.
Qed.

Ltac cents_bound a b H :=
  apply (round2_within _ _ _ a b); [lra | lra | exact H].

(** X4.  Every reading of a snapshot, after rounding to two decimals, lies
    within the registry bounds of its parameter (all bounds are whole
    numbers of hundredths), whatever the state before the tick. *)
Theorem snapshot_values_in_bounds (hour : Z) (st : state) (g : Rng) :
  Forall2 (fun r p => lim_min p <= readingValue r <= lim_max p)
    (fst (fst (generate_reading hour st g))) keys.
Proof.
  unfold generate_reading.
  destruct (apply_daily_cycle hour st g) as [st1 g1].
  pose proof (drift_in_bounds st1 g1) as Hd.
  destruct (apply_random_drift st1 g1) as [st2 g2]; cbn [fst] in *.
  pose proof (correlations_in_bounds st2 Hd) as Hb.
  set (st3 := apply_correlations st2) in *.
  unfold in_bounds, in_bounds_p in Hb; cbn [fst readings_of].
  unfold keys; repeat apply Forall2_cons; try apply Forall2_nil;
    cbn [readingValue lim_min lim_max].
  - cents_bound 80%Z 300%Z (Hb ec).
  - cents_bound 550%Z 650%Z (Hb ph).
  - cents_bound 1800%Z 2600%Z (Hb water_temp).
  - cents_bound 2000%Z 3000%Z (Hb air_temp).
  - cents_bound 5000%Z 7000%Z (Hb humidity).
  - cents_bound 10000%Z 100000%Z (Hb light).
Qed.

(** The number of variates one tick reads: one for the night-time light
    draw, then a uniform and a Gaussian draw for each of the six
    parameters. *)
Definition tick_draws (hour : Z) : nat :=
  if ((6 <=? hour)%Z && (hour <? 18)%Z)%bool then 12 else 13.

Lemma generate_reading_rng (hour : Z) (st : state) (g : Rng) :
  snd (generate_reading hour st g) = mkRng (stream g) (pos g + tick_draws hour).
Proof.
  unfold generate_reading; rewrite apply_daily_cycle_eq.
  destruct (drift_loop_spec keys keys_nodup
     (fst (apply_daily_cycle hour st g)) (snd (apply_daily_cycle hour st g)))
    as [_ [_ H]].
  rewrite apply_daily_cycle_eq in H; unfold apply_random_drift.
  unfold tick_draws; destruct ((6 <=? hour)%Z && (hour <? 18)%Z)%bool;
    cbn [fst snd] in *;
    destruct (drift_loop keys _ _) as [st2 g2]; cbn [snd] in *; rewrite H;
    cbn [stream pos keys Datatypes.length]; f_equal; lia.
Qed.

(** X5.  A run of ticks reads the random source in order without skipping:
    twelve variates per daytime tick (6 <= hour < 18) and thirteen per
    night tick, so the source ends at its start position plus their sum. *)
Theorem run_draw_count (hs : list Z) :
  forall (st : state) (g : Rng),
  snd (run hs st g) = mkRng (stream g) (pos g + list_sum (map tick_draws hs)).
Proof.
  induction hs as [|h hs IH]; intros st g; cbn [run].
  - change (list_sum (map tick_draws [])) with 0%nat.
    destruct g; cbn; f_equal; lia.
  - pose proof (generate_reading_rng h st g) as H.
    destruct (generate_reading h st g) as [[rs st1] g1]; cbn [snd] in H; subst g1.
    pose proof (IH st1 (mkRng (stream g) (pos g + tick_draws h))) as H2.
    destruct (run hs st1 _) as [[out st2] g2]; cbn [snd] in *.
    change (list_sum (map tick_draws (h :: hs)))
      with (tick_draws h + list_sum (map tick_draws hs))%nat.
    rewrite H2; cbn [stream pos]; f_equal; lia.
Qed.

Import SendReading.

Lemma str_app_assoc (a b c : string) : ((a ++ b) ++ c)%string = (a ++ (b ++ c))%string.
Proof. induction a as [|x a IH]; cbn; [reflexivity | rewrite IH; reflexivity]. Qed.

Lemma text_loop_join (fmt : R -> string) (rs : list reading) :
  forall (acc : string) (r : reading),
  text_loop fmt false (acc ++ piece fmt r)%string rs =
  (acc ++ String.concat "," (map (piece fmt) (r :: rs)))%string.
Proof.
  induction rs as [|r' rs IH]; intros acc r; [reflexivity|].
  cbn [text_loop negb].
  rewrite (IH ((acc ++ piece fmt r) ++ ",")%string r').
  rewrite !str_app_assoc; reflexivity.
Qed.

Lemma readings_text_join (fmt : R -> string) (rs : list reading) :
  readings_text fmt rs = String.concat "," (map (piece fmt) rs).
Proof.
  destruct rs as [|r rs]; [reflexivity|].
  unfold readings_text; cbn [text_loop negb].
  exact (text_loop_join fmt rs ""%string r).
Qed.

(** X6.  The payload built by [send_reading] is the readings' pieces
    [type:t,value:v,unit:u] joined by single commas: the empty string for no
    readings, and no leading or trailing comma. *)
Theorem readings_text_is_join (fmt : R -> string) (rs : list reading) :
  readings_text fmt rs = String.concat "," (map (piece fmt) rs).
Proof. apply readings_text_join. Qed.

Lemma str_app_nil_r (a : string) : (a ++ "")%string = a.
Proof. induction a as [|x a IH]; cbn; [reflexivity | rewrite IH; reflexivity]. Qed.

Lemma split_acc_free (s : string) :
  forall cur rest, comma_free s = true ->
  split_acc cur (s ++ rest) = split_acc (cur ++ s) rest.
Proof.
  induction s as [|c s IH]; intros cur rest Hs.
  - rewrite str_app_nil_r; reflexivity.
  - cbn [comma_free] in Hs; apply andb_true_iff in Hs as [Hc Hs].
    cbn [append split_acc]; apply negb_true_iff in Hc; rewrite Hc.
    rewrite IH by exact Hs.
    rewrite str_app_assoc; reflexivity.
Qed.

Lemma split_acc_sep (cur s rest : string) :
  split_acc cur (String ","%char s ++ rest) = cur :: split_acc ""%string (s ++ rest).
Proof. reflexivity. Qed.

Definition fields_ok (fmt : R -> string) (r : reading) : Prop :=
  comma_free (readingType r) = true /\ comma_free (fmt (readingValue r)) = true /\
  comma_free (readingUnit r) = true.

Lemma split_piece (fmt : R -> string) (r : reading) (cur rest : string) :
  fields_ok fmt r ->
  split_acc cur (piece fmt r ++ rest) =
  (cur ++ "type:" ++ readingType r)%string :: ("value:" ++ fmt (readingValue r))%string
  :: split_acc ("unit:" ++ readingUnit r)%string rest.
Proof.
  intros (Ht & Hv & Hu); unfold piece.
  rewrite !str_app_assoc.
  rewrite split_acc_free by reflexivity.
  rewrite split_acc_free by exact Ht.
  rewrite split_acc_sep.
  rewrite split_acc_free by reflexivity.
  rewrite split_acc_free by exact Hv.
  rewrite split_acc_sep.
  rewrite split_acc_free by reflexivity.
  rewrite split_acc_free by exact Hu.
  rewrite !str_app_assoc; reflexivity.
Qed.

Lemma split_join (fmt : R -> string) (rs : list reading) :
  forall (cur : string) (r : reading),
  Forall (fields_ok fmt) (r :: rs) ->
  split_acc cur (String.concat "," (map (piece fmt) (r :: rs))) =
  (cur ++ "type:" ++ readingType r)%string :: ("value:" ++ fmt (readingValue r))%string
  :: ("unit:" ++ readingUnit r)%string
  :: flat_map (fun r' => [("type:" ++ readingType r')%string;
                          ("value:" ++ fmt (readingValue r'))%string;
                          ("unit:" ++ readingUnit r')%string]) rs.
Proof.
  induction rs as [|r' rs IH]; intros cur r Hok; inversion Hok as [|? ? Hr Hrs]; subst.
  - cbn [map String.concat flat_map].
    rewrite <- (str_app_nil_r (piece fmt r)), split_piece by exact Hr.
    reflexivity.
  - change (String.concat "," (map (piece fmt) (r :: r' :: rs)))
      with (piece fmt r ++ String ","%char ""%string ++ String.concat "," (map (piece fmt) (r' :: rs)))%string.
    rewrite split_piece by exact Hr.
    rewrite split_acc_sep; cbn [append].
    rewrite (IH ""%string r' Hrs); reflexivity.
Qed.

(** X7.  When no reading type, unit or formatted value contains a comma,
    splitting the payload of [send_reading] on commas gives back, reading by
    reading, the three fields [type:t], [value:v] and [unit:u]. *)
Theorem readings_text_split (fmt : R -> string) (rs : list reading) :
  rs <> [] -> Forall (fields_ok fmt) rs ->
  split_comma (readings_text fmt rs) =
  flat_map (fun r => [("type:" ++ readingType r)%string;
                      ("value:" ++ fmt (readingValue r))%string;
                      ("unit:" ++ readingUnit r)%string]) rs.
Proof.
  intros Hne Hok; destruct rs as [|r rs]; [congruence|].
  rewrite readings_text_join.
  unfold split_comma; rewrite (split_join fmt rs ""%string r Hok); reflexivity.
Qed.

Lemma readings_text_split_witness :
  readings_of init_state <> [] /\
  Forall (fields_ok (fun _ => "0"%string)) (readings_of init_state) /\
  length (split_comma (readings_text (fun _ => "0"%string) (readings_of init_state))) = 18%nat.
Proof.
  assert (readings_of init_state <> []) as H1 by discriminate.
  assert (Forall (fields_ok (fun _ => "0"%string)) (readings_of init_state)) as H2
    by (repeat apply Forall_cons; try apply Forall_nil;
        unfold fields_ok; repeat split; reflexivity).
  split; [exact H1|]. split; [exact H2|].
  rewrite (readings_text_split (fun _ => "0"%string) _ H1 H2); reflexivity.
Defined.

(** X8.  For any float formatting without commas, the payload that
    [simulate_readings] sends for a generated snapshot splits on commas into
    exactly these eighteen fields: type, value and unit of ec, ph,
    water_temperature, air_temperature, humidity and light, in this order. *)
Theorem snapshot_payload_fields (fmt : R -> string) (hour : Z) (st : state) (g : Rng) :
  (forall x, comma_free (fmt x) = true) ->
  let st' := snd (fst (generate_reading hour st g)) in
  split_comma (readings_text fmt (fst (fst (generate_reading hour st g)))) =
  ["type:ec"; "value:" ++ fmt (round2 (st' ec)); "unit:mS/cm";
   "type:ph"; "value:" ++ fmt (round2 (st' ph)); "unit:pH";
   "type:water_temperature"; "value:" ++ fmt (round2 (st' water_temp)); "unit:C";
   "type:air_temperature"; "value:" ++ fmt (round2 (st' air_temp)); "unit:C";
   "type:humidity"; "value:" ++ fmt (round2 (st' humidity)); "unit:%";
   "type:light"; "value:" ++ fmt (round2 (st' light)); "unit:PPFD"]%string.
Proof.
  intros Hf; cbv zeta; unfold generate_reading.
  destruct (apply_daily_cycle hour st g) as [st1 g1].
  destruct (apply_random_drift st1 g1) as [st2 g2]; cbn [fst snd].
  unfold readings_of; rewrite readings_text_join; unfold split_comma.
  rewrite split_join.
  - reflexivity.
  - repeat apply Forall_cons; try apply Forall_nil;
      unfold fields_ok; cbn [readingType readingValue readingUnit];
      repeat split; try reflexivity; apply Hf.
Qed.

Lemma snapshot_payload_fields_witness :
  (forall x : R, comma_free ((fun _ => "0"%string) x) = true) /\
  length (split_comma (readings_text (fun _ => "0"%string)
    (fst (fst (generate_reading 12 init_state (mkRng (fun _ => 0) 0)))))) = 18%nat.
Proof.
  assert (forall x : R, comma_free ((fun _ => "0"%string) x) = true) as Hf
    by (intros; reflexivity).
  split; [exact Hf|].
  rewrite (snapshot_payload_fields (fun _ => "0"%string) 12 init_state
             (mkRng (fun _ => 0) 0) Hf); reflexivity.
Defined.
